(** * async_request.fetch_data: an asynchronous HTTP GET helper

    The module under study is [async_request.py]:

<<
    async def fetch_data(url: str) -> str:
        async with aiohttp.ClientSession() as session:
            async with session.get(url) as response:
                response.raise_for_status()
                return await response.text()

    if __name__ == "__main__":
        url = "https://example.com"
        response_text = asyncio.run(fetch_data(url))
        print(response_text)
>>

    The coroutine is embedded as a finite tree of calls into the HTTP client
    ([coro]); the client library and the network are an explicit [world]
    that a handler ([perform]) updates call by call.  One definition of
    [fetch_data] is then run alone ([run]) or interleaved with another
    coroutine, call by call ([interleave]) or at the suspension points
    inside the calls that wait on the network ([interleave_wire]). *)

From Stdlib Require Import ZArith Lia Ascii.
From stdpp Require Import base decidable option list strings gmap sets.

Local Open Scope Z_scope.
Local Open Scope string_scope.
Local Open Scope list_scope.

#[local] Set Warnings "-clear-no-such-hyp".

(** ** Exceptions, outcomes and coroutines *)

(** Why a request did not get as far as a status line. *)
Inductive transport_failure : Type :=
| DnsFailure
| ConnectionRefused
| TransportTimeout
| HostUnreachable.

(** The exceptions that can leave [fetch_data].  [ClientResponseError] is
    aiohttp's class for a bad HTTP status (the test suite expects it for the
    404 route); it records the request's URL and the status.
    [TransportError] stands for the client's connection-level exceptions
    (connector errors, timeouts).  [ClientPayloadError] is a body that cannot
    be read or decoded; [SessionClosedError] and [ConnectionClosedError] are
    what the client raises when a closed session or a released response is
    used. *)
Inductive exn : Type :=
| ClientResponseError (request_url : string) (status : Z)
| TransportError (cause : transport_failure)
| ClientPayloadError
| SessionClosedError
| ConnectionClosedError.

Inductive outcome (A : Type) : Type :=
| Returned (a : A)
| Raised (e : exn).
Arguments Returned {A} a.
Arguments Raised {A} e.

(** Handles of client-side objects. *)
Definition handle := nat.

(** [aiohttp.ClientResponse] once the headers have arrived: the status is
    known, the body is still to be read. *)
Record ClientResponse : Type := {
  resp_id : handle;
  request_info : string;
  status : Z;
  content : option string
}.

(** The calls [fetch_data] makes into the client, indexed by what they
    give back. *)
Inductive call : Type -> Type :=
| ClientSession : call handle
| session_get (session : handle) (url : string) : call ClientResponse
| raise_for_status (response : ClientResponse) : call unit
| text (response : ClientResponse) : call string
| release (response : ClientResponse) : call unit
| close (session : handle) : call unit.

(** A coroutine either is done or is about to make a call; the continuation
    takes the call's outcome, so that an exception raised by the call still
    runs the exits of the enclosing [async with] blocks.  Every call is a
    point where the event loop may switch to another coroutine: a superset
    of the source's [await] and [async with] points. *)
Inductive coro (A : Type) : Type :=
| Done (o : outcome A)
| Invoke {X : Type} (c : call X) (k : outcome X -> coro A).
Arguments Done {A} o.
Arguments Invoke {A X} c k.

Definition invoke {X : Type} (c : call X) : coro X := Invoke c Done.

Fixpoint bind {A B : Type} (m : coro A) (f : A -> coro B) : coro B :=
  match m with
  | Done (Returned a) => f a
  | Done (Raised e) => Done (Raised e)
  | Invoke c k => Invoke c (fun o => bind (k o) f)
  end.

#[export] Instance coro_ret : MRet coro := fun A a => Done (Returned a).
#[export] Instance coro_bind : MBind coro := fun A B f m => bind m f.

(** [try: body finally: exit], with an [exit] that does not swallow the
    exception ([__aexit__] returning [None]). *)
Fixpoint finally {A : Type} (body : coro A) (exit : coro unit) : coro A :=
  match body with
  | Done o => bind exit (fun _ => Done o)
  | Invoke c k => Invoke c (fun o => finally (k o) exit)
  end.

(** An asynchronous context manager: [__aenter__] and [__aexit__]. *)
Record acm (R : Type) : Type := {
  aenter : coro R;
  aexit : R -> coro unit
}.
Arguments aenter {R} _.
Arguments aexit {R} _ _.

(** [async with cm as r: body].  When [__aenter__] raises, [__aexit__] is
    not called. *)
Definition async_with {R A : Type} (cm : acm R) (body : R -> coro A) : coro A :=
  r ← aenter cm; finally (body r) (aexit cm r).

(** [aiohttp.ClientSession()] used as a context manager. *)
Definition ClientSession_cm : acm handle :=
  {| aenter := invoke ClientSession;
     aexit := fun session => invoke (close session) |}.

(** [session.get(url)] used as a context manager. *)
Definition get_cm (session : handle) (url : string) : acm ClientResponse :=
  {| aenter := invoke (session_get session url);
     aexit := fun response => invoke (release response) |}.

(** ** The function *)

Definition fetch_data (url : string) : coro string :=
  async_with ClientSession_cm (fun session =>
    async_with (get_cm session url) (fun response =>
      _ ← invoke (raise_for_status response);
      invoke (text response))).

(** ** The client library and the network *)

(** What a server sends back and the client hands to the caller: a status
    line and a body, the body possibly undeliverable.  A reply the client
    acts on by itself (a 3xx with a Location, which it follows) is not one
    of these. *)
Record reply : Type := {
  reply_status : Z;
  reply_body : option string
}.

Inductive exchange : Type :=
| Unreachable (cause : transport_failure)
| Replied (r : reply).

(** The network answers the [n]-th request put on the wire, for a URL. *)
Definition network : Type := nat -> string -> exchange.

(** What the client is seen to do. *)
Inductive event : Type :=
| SessionOpened (session : handle)
| RequestSent (session : handle) (url : string)
| ResponseStarted (response : handle)
| StatusChecked (response : handle) (status : Z)
| BodyRead (response : handle)
| ResponseReleased (response : handle)
| SessionClosed (session : handle).

#[export] Instance transport_failure_eq_dec : EqDecision transport_failure.
Proof. solve_decision. Defined.

#[export] Instance exn_eq_dec : EqDecision exn.
Proof. solve_decision. Defined.

#[export] Instance event_eq_dec : EqDecision event.
Proof. solve_decision. Defined.

(** The client's state: the next fresh handle, the sessions that are open,
    the responses that still hold a connection (each with the session that
    owns it), the number of requests issued so far, the events so far
    (oldest first) and the lines printed. *)
Record world : Type := {
  next_handle : handle;
  sessions : gset handle;
  responses : gmap handle handle;
  sent : nat;
  trace : list event;
  stdout : list string
}.

Definition log (ev : event) (w : world) : world :=
  {| next_handle := next_handle w; sessions := sessions w;
     responses := responses w; sent := sent w;
     trace := trace w ++ [ev]; stdout := stdout w |}.

Definition open_session (w : world) : world :=
  {| next_handle := S (next_handle w);
     sessions := {[next_handle w]} ∪ sessions w;
     responses := responses w; sent := sent w;
     trace := trace w; stdout := stdout w |}.

Definition count_request (w : world) : world :=
  {| next_handle := next_handle w; sessions := sessions w;
     responses := responses w; sent := S (sent w);
     trace := trace w; stdout := stdout w |}.

Definition open_response (session : handle) (w : world) : world :=
  {| next_handle := S (next_handle w); sessions := sessions w;
     responses := <[next_handle w := session]> (responses w);
     sent := sent w; trace := trace w; stdout := stdout w |}.

Definition drop_response (r : handle) (w : world) : world :=
  {| next_handle := next_handle w; sessions := sessions w;
     responses := delete r (responses w);
     sent := sent w; trace := trace w; stdout := stdout w |}.

(** Closing a session closes the connections it owns. *)
Definition drop_session (s : handle) (w : world) : world :=
  {| next_handle := next_handle w; sessions := sessions w ∖ {[s]};
     responses := filter (fun p => p.2 ≠ s) (responses w);
     sent := sent w; trace := trace w; stdout := stdout w |}.

(** [print(text)]. *)
Definition print (line : string) (w : world) : world :=
  {| next_handle := next_handle w; sessions := sessions w;
     responses := responses w; sent := sent w;
     trace := trace w; stdout := stdout w ++ [line] |}.

(** The events between an earlier and a later state. *)
Definition emitted (w w1 : world) : list event :=
  drop (length (trace w)) (trace w1).

Definition is_request (ev : event) : bool :=
  match ev with RequestSent _ _ => true | _ => false end.

Definition event_handles (ev : event) : gset handle :=
  match ev with
  | SessionOpened s | RequestSent s _ | SessionClosed s => {[s]}
  | ResponseStarted r | StatusChecked r _ | BodyRead r
  | ResponseReleased r => {[r]}
  end.

(** Every handle a list of events mentions. *)
Definition handles (l : list event) : gset handle :=
  ⋃ (event_handles <$> l).

(** Two coroutines on one event loop. *)
Record joint (A B : Type) : Type := {
  left_outcome : outcome A;
  right_outcome : outcome B;
  left_log : list event;
  right_log : list event;
  final : world
}.
Arguments left_outcome {A B} _.
Arguments right_outcome {A B} _.
Arguments left_log {A B} _.
Arguments right_log {A B} _.
Arguments final {A B} _.

(** A process of the interpreter: exit status, the uncaught exception its
    traceback reports, and the state it leaves. *)
Record process : Type := {
  exit_code : Z;
  traceback : option exn;
  after : world
}.

Section Client.

Variable net : network.

(** What each call does to the client's state, and what it gives back.
    [session.get] builds the response for the request it sent, so the
    response's [request_info] is that request's URL.  [raise_for_status]
    raises when [not response.ok], [ok] being [400 > status]. *)
Definition perform {X : Type} (c : call X) (w : world) : outcome X * world :=
  match c in call T return outcome T * world with
  | ClientSession =>
      (Returned (next_handle w),
       log (SessionOpened (next_handle w)) (open_session w))
  | session_get s url =>
      if decide (s ∈ sessions w) then
        let w1 := log (RequestSent s url) (count_request w) in
        match net (sent w) url with
        | Unreachable cause => (Raised (TransportError cause), w1)
        | Replied rep =>
            (Returned {| resp_id := next_handle w; request_info := url;
                         status := reply_status rep;
                         content := reply_body rep |},
             log (ResponseStarted (next_handle w)) (open_response s w1))
        end
      else (Raised SessionClosedError, w)
  | raise_for_status r =>
      let w1 := log (StatusChecked (resp_id r) (status r)) w in
      if decide (400 <= status r)
      then (Raised (ClientResponseError (request_info r) (status r)), w1)
      else (Returned tt, w1)
  | text r =>
      let w1 := log (BodyRead (resp_id r)) w in
      match responses w !! resp_id r with
      | None => (Raised ConnectionClosedError, w1)
      | Some _ =>
          match content r with
          | Some body => (Returned body, w1)
          | None => (Raised ClientPayloadError, w1)
          end
      end
  | release r =>
      (Returned tt,
       log (ResponseReleased (resp_id r)) (drop_response (resp_id r) w))
  | close s =>
      (Returned tt, log (SessionClosed s) (drop_session s w))
  end.

(** Running a coroutine to completion on its own. *)
Fixpoint run {A : Type} (p : coro A) (w : world) : outcome A * world :=
  match p with
  | Done o => (o, w)
  | Invoke c k => let '(o, w1) := perform c w in run (k o) w1
  end.

(** One call of a coroutine; a finished coroutine stays as it is. *)
Definition step {A : Type} (p : coro A) (w : world) : coro A * world :=
  match p with
  | Done o => (Done o, w)
  | Invoke c k => let '(o, w1) := perform c w in (k o, w1)
  end.



(** ** The script *)

(** [asyncio.run(coro)]: an event loop of its own drives the coroutine to
    its end. *)
Definition asyncio_run {A : Type} (p : coro A) (w : world) : outcome A * world :=
  run p w.

(** The statements under the [__main__] guard. *)
Definition main (w : world) : outcome unit * world :=
  let url := "https://example.com" in
  let '(o, w1) := asyncio_run (fetch_data url) w in
  match o with
  | Returned response_text => (Returned tt, print response_text w1)
  | Raised e => (Raised e, w1)
  end.

(** The module's top level, for a given [__name__]: the imports and the
    [def] touch neither the network nor standard output. *)
Definition module_body (name : string) (w : world) : outcome unit * world :=
  if decide (name = "__main__") then main w else (Returned tt, w).

Definition python (entry : world -> outcome unit * world) (w : world) : process :=
  let '(o, w1) := entry w in
  match o with
  | Returned _ => {| exit_code := 0; traceback := None; after := w1 |}
  | Raised e => {| exit_code := 1; traceback := Some e; after := w1 |}
  end.

(** [python async_request.py]. *)
Definition run_script (w : world) : process :=
  python (module_body "__main__") w.

End Client.

(** ** The mock endpoint of the test suite

    [unittest.py] serves one route, [GET /test], answering
    ["Mock response data"] with status 200; any other path has no handler
    and gets the server's 404. *)
Definition mock_server (port : string) : network :=
  fun _ url =>
    if decide (url = "http://localhost:" +:+ port +:+ "/test")
    then Replied {| reply_status := 200;
                    reply_body := Some "Mock response data" |}
    else Replied {| reply_status := 404;
                    reply_body := Some "404: Not Found" |}.

(** A port nobody listens on: every connection is refused. *)
Definition closed_port : network :=
  fun _ _ => Unreachable ConnectionRefused.

(** A client that has not done anything yet. *)
Definition fresh : world :=
  {| next_handle := 0%nat; sessions := ∅; responses := ∅; sent := 0%nat;
     trace := []; stdout := [] |}.

(** ** What a fetch amounts to *)

(** The outcome of a fetch as a function of the URL and of what the network
    did with the request. *)
Definition fetched (url : string) (x : exchange) : outcome string :=
  match x with
  | Unreachable cause => Raised (TransportError cause)
  | Replied rep =>
      if decide (400 <= reply_status rep)
      then Raised (ClientResponseError url (reply_status rep))
      else match reply_body rep with
           | Some body => Returned body
           | None => Raised ClientPayloadError
           end
  end.

(** The events of the exchange proper, once the request is out, for a
    response [S h]. *)
Definition exchange_events (h : handle) (x : exchange) : list event :=
  match x with
  | Unreachable _ => []
  | Replied rep =>
      [ResponseStarted (S h); StatusChecked (S h) (reply_status rep)] ++
      (if decide (400 <= reply_status rep) then [] else [BodyRead (S h)]) ++
      [ResponseReleased (S h)]
  end.

(** The events of a fetch whose session is [h]. *)
Definition fetch_events (h : handle) (url : string) (x : exchange) : list event :=
  SessionOpened h :: (RequestSent h url :: exchange_events h x)
    ++ [SessionClosed h].

(** The state a fetch leaves behind. *)
Definition fetch_effect (net : network) (url : string) (w : world) : world :=
  let h := next_handle w in
  let x := net (sent w) url in
  {| next_handle := match x with Unreachable _ => S h | Replied _ => S (S h) end;
     sessions := ({[h]} ∪ sessions w) ∖ {[h]};
     responses :=
       filter (fun p => p.2 ≠ h)
         match x with
         | Unreachable _ => responses w
         | Replied _ => delete (S h) (<[S h := h]> (responses w))
         end;
     sent := S (sent w);
     trace := trace w ++ fetch_events h url x;
     stdout := stdout w |}.

(** ** The call as a sequence of stages

    Where a call of [fetch_data] can stand between two calls into the
    client, with what it holds at that point. *)
Inductive stage : Type :=
| Starting
| Opened (session : handle)
| Responded (session : handle) (response : ClientResponse)
| Checked (session : handle) (response : ClientResponse)
| Releasing (session : handle) (response : ClientResponse) (o : outcome string)
| Closing (session : handle) (o : outcome string)
| Finished (o : outcome string).

(** What is left of [fetch_data url] at a stage. *)
Definition resume (url : string) (st : stage) : coro string :=
  match st with
  | Starting => fetch_data url
  | Opened session =>
      finally
        (async_with (get_cm session url) (fun response =>
           _ ← invoke (raise_for_status response);
           invoke (text response)))
        (invoke (close session))
  | Responded session response =>
      finally
        (finally
           (_ ← invoke (raise_for_status response); invoke (text response))
           (invoke (release response)))
        (invoke (close session))
  | Checked session response =>
      finally
        (finally (invoke (text response)) (invoke (release response)))
        (invoke (close session))
  | Releasing session response o =>
      finally (finally (Done o) (invoke (release response)))
        (invoke (close session))
  | Closing session o => finally (Done o) (invoke (close session))
  | Finished o => Done o
  end.

(** The stage after the next call. *)
Definition stage_step (net : network) (url : string) (st : stage) (w : world)
    : stage * world :=
  match st with
  | Starting =>
      let '(o, w1) := perform net ClientSession w in
      (match o with
       | Returned session => Opened session
       | Raised e => Finished (Raised e)
       end, w1)
  | Opened session =>
      let '(o, w1) := perform net (session_get session url) w in
      (match o with
       | Returned response => Responded session response
       | Raised e => Closing session (Raised e)
       end, w1)
  | Responded session response =>
      let '(o, w1) := perform net (raise_for_status response) w in
      (match o with
       | Returned _ => Checked session response
       | Raised e => Releasing session response (Raised e)
       end, w1)
  | Checked session response =>
      let '(o, w1) := perform net (text response) w in
      (Releasing session response o, w1)
  | Releasing session response o =>
      let '(o1, w1) := perform net (release response) w in
      (match o1 with
       | Returned _ => Closing session o
       | Raised e => Closing session (Raised e)
       end, w1)
  | Closing session o =>
      let '(o1, w1) := perform net (close session) w in
      (match o1 with
       | Returned _ => Finished o
       | Raised e => Finished (Raised e)
       end, w1)
  | Finished o => (Finished o, w)
  end.


(** The handles a call holds at a stage. *)
Definition owned (st : stage) : gset handle :=
  match st with
  | Starting | Finished _ => ∅
  | Opened session | Closing session _ => {[session]}
  | Responded session response | Checked session response
  | Releasing session response _ => {[session; resp_id response]}
  end.

(** What a call for [url] can rely on at a stage, when the network's answer
    for [url] is [x]. *)
Definition good (url : string) (x : exchange) (st : stage) (w : world) : Prop :=
  match st with
  | Starting => True
  | Opened session => session ∈ sessions w
  | Responded session response =>
      responses w !! resp_id response = Some session
      /\ exists rep, x = Replied rep
           /\ request_info response = url
           /\ status response = reply_status rep
           /\ content response = reply_body rep
  | Checked session response =>
      responses w !! resp_id response = Some session
      /\ status response < 400
      /\ exists rep, x = Replied rep
           /\ request_info response = url
           /\ status response = reply_status rep
           /\ content response = reply_body rep
  | Releasing _ _ o | Closing _ o | Finished o => o = fetched url x
  end.




(** ** The event loop at the suspension points of a call

    [session.get] and [response.text] wait on the network.  A coroutine is
    suspended while its connection is acquired, while its request is
    written, while the response's headers are awaited, and later while the
    body arrives; other coroutines run meanwhile. *)
Inductive task (A : Type) : Type :=
| Ready (p : coro A)
| Connecting (session : handle) (url : string)
    (k : outcome ClientResponse -> coro A)
| Sending (session : handle) (url : string)
    (k : outcome ClientResponse -> coro A)
| AwaitingHeaders (session : handle) (url : string) (n : nat)
    (k : outcome ClientResponse -> coro A)
| AwaitingBody (response : ClientResponse) (k : outcome string -> coro A).
Arguments Ready {A} p.
Arguments Connecting {A} session url k.
Arguments Sending {A} session url k.
Arguments AwaitingHeaders {A} session url n k.
Arguments AwaitingBody {A} response k.

Section Wire.

Variable net : network.

(** The answer to the [n]-th request arrives: its headers, or the failure
    of the exchange.  The session must still be open to take them. *)
Definition receive_headers (s : handle) (url : string) (n : nat) (w : world)
    : outcome ClientResponse * world :=
  match net n url with
  | Unreachable cause => (Raised (TransportError cause), w)
  | Replied rep =>
      if decide (s ∈ sessions w) then
        (Returned {| resp_id := next_handle w; request_info := url;
                     status := reply_status rep;
                     content := reply_body rep |},
         log (ResponseStarted (next_handle w)) (open_response s w))
      else (Raised ConnectionClosedError, w)
  end.

(** The body arrives; the response must still be live to take it. *)
Definition receive_body (r : ClientResponse) (w : world)
    : outcome string * world :=
  match responses w !! resp_id r with
  | None => (Raised ConnectionClosedError, w)
  | Some _ =>
      (match content r with
       | Some body => Returned body
       | None => Raised ClientPayloadError
       end, w)
  end.

(** A coroutine makes a call: [session.get] and [response.text] suspend it,
    the other calls are done at once. *)
Definition enter_call {A X : Type} (c : call X)
    : (outcome X -> coro A) -> world -> task A * world :=
  match c in call T return (outcome T -> coro A) -> world -> task A * world with
  | ClientSession => fun k w =>
      let '(o, w1) := perform net ClientSession w in (Ready (k o), w1)
  | session_get s url => fun k w =>
      if decide (s ∈ sessions w) then (Connecting s url k, w)
      else (Ready (k (Raised SessionClosedError)), w)
  | raise_for_status r => fun k w =>
      let '(o, w1) := perform net (raise_for_status r) w in (Ready (k o), w1)
  | text r => fun k w =>
      let w1 := log (BodyRead (resp_id r)) w in
      match responses w !! resp_id r with
      | None => (Ready (k (Raised ConnectionClosedError)), w1)
      | Some _ => (AwaitingBody r k, w1)
      end
  | release r => fun k w =>
      let '(o, w1) := perform net (release r) w in (Ready (k o), w1)
  | close s => fun k w =>
      let '(o, w1) := perform net (close s) w in (Ready (k o), w1)
  end.

(** What a task does when the event loop runs it next, up to its next
    suspension point. *)
Definition advance {A : Type} (t : task A) (w : world) : task A * world :=
  match t with
  | Ready (Done o) => (Ready (Done o), w)
  | Ready (Invoke c k) => enter_call c k w
  | Connecting s url k =>
      if decide (s ∈ sessions w) then (Sending s url k, w)
      else (Ready (k (Raised SessionClosedError)), w)
  | Sending s url k =>
      if decide (s ∈ sessions w) then
        (AwaitingHeaders s url (sent w) k,
         log (RequestSent s url) (count_request w))
      else (Ready (k (Raised SessionClosedError)), w)
  | AwaitingHeaders s url n k =>
      let '(o, w1) := receive_headers s url n w in (Ready (k o), w1)
  | AwaitingBody r k =>
      let '(o, w1) := receive_body r w in (Ready (k o), w1)
  end.

(** The call a task is suspended in, done without interruption. *)
Definition settle {A : Type} (t : task A) (w : world) : coro A * world :=
  match t with
  | Ready p => (p, w)
  | Connecting s url k | Sending s url k =>
      let '(o, w1) := perform net (session_get s url) w in (k o, w1)
  | AwaitingHeaders s url n k =>
      let '(o, w1) := receive_headers s url n w in (k o, w1)
  | AwaitingBody r k =>
      let '(o, w1) := receive_body r w in (k o, w1)
  end.

(** A task run to its end without interruption. *)
Definition finish {A : Type} (t : task A) (w : world) : outcome A * world :=
  let '(p, w1) := settle t w in run net p w1.

(** Two tasks on one event loop: the schedule says which one is resumed
    next ([true]: the left one), each time up to its next suspension point;
    when it runs out, the left task is run to its end and then the right
    one.  Each task's own events are collected. *)
Fixpoint interleave_wire {A B : Type} (sched : list bool) (p : task A)
    (q : task B) (la lb : list event) (w : world) : joint A B :=
  match sched with
  | [] =>
      let '(oa, w1) := finish p w in
      let '(ob, w2) := finish q w1 in
      {| left_outcome := oa; right_outcome := ob;
         left_log := la ++ emitted w w1; right_log := lb ++ emitted w1 w2;
         final := w2 |}
  | true :: sched' =>
      let '(p', w1) := advance p w in
      interleave_wire sched' p' q (la ++ emitted w w1) lb w1
  | false :: sched' =>
      let '(q', w1) := advance q w in
      interleave_wire sched' p q' la (lb ++ emitted w w1) w1
  end.

(** [asyncio.gather(p, q)] under a given schedule of the event loop. *)
Definition gather_wire {A B : Type} (sched : list bool) (p : coro A)
    (q : coro B) (w : world) : joint A B :=
  interleave_wire sched (Ready p) (Ready q) [] [] w.

End Wire.

(** Where a call of [fetch_data] can stand on the event loop: between two
    calls, or suspended in [session.get] or in [response.text]. *)
Inductive wire_stage : Type :=
| At (st : stage)
| InConnecting (session : handle)
| InSending (session : handle)
| InHeaders (session : handle) (n : nat)
| InBody (session : handle) (response : ClientResponse).

(** The stage [session.get] leads to. *)
Definition after_get (session : handle) (o : outcome ClientResponse) : stage :=
  match o with
  | Returned response => Responded session response
  | Raised e => Closing session (Raised e)
  end.

(** The tasks that stand at a stage of [fetch_data url]. *)
Inductive at_stage (url : string) : wire_stage -> task string -> Prop :=
| at_ready (st : stage) : at_stage url (At st) (Ready (resume url st))
| at_connecting (s : handle) (k : outcome ClientResponse -> coro string) :
    (forall o, k o = resume url (after_get s o)) ->
    at_stage url (InConnecting s) (Connecting s url k)
| at_sending (s : handle) (k : outcome ClientResponse -> coro string) :
    (forall o, k o = resume url (after_get s o)) ->
    at_stage url (InSending s) (Sending s url k)
| at_headers (s : handle) (n : nat) (k : outcome ClientResponse -> coro string) :
    (forall o, k o = resume url (after_get s o)) ->
    at_stage url (InHeaders s n) (AwaitingHeaders s url n k)
| at_body (s : handle) (r : ClientResponse) (k : outcome string -> coro string) :
    (forall o, k o = resume url (Releasing s r o)) ->
    at_stage url (InBody s r) (AwaitingBody r k).

(** The stage after the task is resumed once. *)
Definition wire_step (net : network) (url : string) (ws : wire_stage)
    (w : world) : wire_stage * world :=
  match ws with
  | At (Opened s) =>
      if decide (s ∈ sessions w) then (InConnecting s, w)
      else (At (Closing s (Raised SessionClosedError)), w)
  | At (Checked s r) =>
      let w1 := log (BodyRead (resp_id r)) w in
      match responses w !! resp_id r with
      | None => (At (Releasing s r (Raised ConnectionClosedError)), w1)
      | Some _ => (InBody s r, w1)
      end
  | At st => let '(st1, w1) := stage_step net url st w in (At st1, w1)
  | InConnecting s =>
      if decide (s ∈ sessions w) then (InSending s, w)
      else (At (Closing s (Raised SessionClosedError)), w)
  | InSending s =>
      if decide (s ∈ sessions w) then
        (InHeaders s (sent w), log (RequestSent s url) (count_request w))
      else (At (Closing s (Raised SessionClosedError)), w)
  | InHeaders s n =>
      let '(o, w1) := receive_headers net s url n w in (At (after_get s o), w1)
  | InBody s r =>
      let '(o, w1) := receive_body r w in (At (Releasing s r o), w1)
  end.

(** The resumptions still to come. *)
Definition wire_rank (ws : wire_stage) : nat :=
  match ws with
  | At Starting => 10
  | At (Opened _) => 9
  | InConnecting _ => 8
  | InSending _ => 7
  | InHeaders _ _ => 6
  | At (Responded _ _) => 5
  | At (Checked _ _) => 4
  | InBody _ _ => 3
  | At (Releasing _ _ _) => 2
  | At (Closing _ _) => 1
  | At (Finished _) => 0
  end.

Fixpoint wire_run (n : nat) (net : network) (url : string) (ws : wire_stage)
    (w : world) : wire_stage * world :=
  match n with
  | O => (ws, w)
  | S n1 =>
      let '(ws1, w1) := wire_step net url ws w in
      wire_run n1 net url ws1 w1
  end.

(** The handles a call holds at a stage, and what it can rely on there. *)
Definition wire_owned (ws : wire_stage) : gset handle :=
  match ws with
  | At st => owned st
  | InConnecting s | InSending s | InHeaders s _ => {[s]}
  | InBody s r => {[s; resp_id r]}
  end.

Definition wire_good (url : string) (x : exchange) (ws : wire_stage)
    (w : world) : Prop :=
  match ws with
  | At st => good url x st w
  | InConnecting s | InSending s | InHeaders s _ => s ∈ sessions w
  | InBody s r => good url x (Checked s r) w
  end.

(** Two calls on one event loop, one for [u1] at stage [ws1] with events
    [la] so far, one for [u2] at stage [ws2] with events [lb]: each can rely
    on what its stage needs, holds only handles its own events mention, and
    the two sets of handles are apart. *)
Definition together (u1 : string) (x1 : exchange) (u2 : string) (x2 : exchange)
    (ws1 ws2 : wire_stage) (la lb : list event) (w : world) : Prop :=
  wire_good u1 x1 ws1 w
  /\ wire_good u2 x2 ws2 w
  /\ wire_owned ws1 ⊆ handles la
  /\ wire_owned ws2 ⊆ handles lb
  /\ handles la ## handles lb
  /\ forall h : handle, h ∈ handles la ∪ handles lb -> (h < next_handle w)%nat.

(** ** Client states whose handles are accounted for

    Every open session, every live response and every response's owner was
    handed out by the client: it is below the next fresh handle. *)
Definition well_formed (w : world) : Prop :=
  set_Forall (fun s => (s < next_handle w)%nat) (sessions w)
  /\ map_Forall
       (fun r s => (r < next_handle w)%nat /\ (s < next_handle w)%nat)
       (responses w).

(** ** The test suite, [unittest.py]

<<
    class TestFetchData(AioHTTPTestCase):
        async def get_application(self):
            async def mock_handler(request):
                return web.Response(text="Mock response data")
            app = web.Application()
            app.router.add_get('/test', mock_handler)
            return app

        async def test_fetch_data_success(self):
            url = f"http://localhost:{self.server.port}/test"
            response_text = await fetch_data(url)
            assert response_text == "Mock response data"

        async def test_fetch_data_404(self):
            url = f"http://localhost:{self.server.port}/nonexistent"
            with pytest.raises(aiohttp.ClientResponseError):
                await fetch_data(url)
>>
*)

(** What a handler is given. *)
Record Request : Type := {
  method : string;
  path : string
}.

(** [web.Response(text=...)]: the status defaults to 200. *)
Definition web_Response (text : string) : reply :=
  {| reply_status := 200; reply_body := Some text |}.

Definition mock_handler (request : Request) : reply :=
  web_Response "Mock response data".

(** An application is its router's table: method, path, handler, in the
    order of registration. *)
Definition Application : Type := list (string * string * (Request -> reply)).

(** [app.router.add_get(path, handler)]: the GET route and, as the router
    does by default, the HEAD route for the same handler. *)
Definition add_get (route_path : string) (handler : Request -> reply)
    (app : Application) : Application :=
  app ++ [("HEAD", route_path, handler); ("GET", route_path, handler)].

Definition get_application : Application :=
  add_get "/test" mock_handler [].

Definition not_found : reply :=
  {| reply_status := 404; reply_body := Some "404: Not Found" |}.

Definition method_not_allowed : reply :=
  {| reply_status := 405; reply_body := Some "405: Method Not Allowed" |}.

(** The router: the first route with the request's path and method answers;
    a path known under other methods only gets 405, an unknown path 404. *)
Fixpoint resolve (app : Application) (request : Request) (path_known : bool)
    : reply :=
  match app with
  | [] => if path_known then method_not_allowed else not_found
  | (route_method, route_path, handler) :: rest =>
      if decide (route_path = path request) then
        if decide (route_method = method request) then handler request
        else resolve rest request true
      else resolve rest request path_known
  end.

(** [strip_prefix p s] is what follows [p] in [s]. *)
Fixpoint strip_prefix (p s : string) : option string :=
  match p, s with
  | EmptyString, _ => Some s
  | String a p1, String b s1 =>
      if decide (a = b) then strip_prefix p1 s1 else None
  | String _ _, EmptyString => None
  end.

Definition base_url (port : string) : string := "http://localhost:" +:+ port.

(** What comes before the query and the fragment. *)
Fixpoint path_part (s : string) : string :=
  match s with
  | EmptyString => EmptyString
  | String c s1 =>
      if decide (c = "?"%char \/ c = "#"%char) then EmptyString
      else String c (path_part s1)
  end.

(** The path a URL asks the server on [port] for, when it is a URL of that
    server: after the base comes a path, a query, a fragment or nothing,
    and no path stands for the path "/". *)
Definition request_path (port url : string) : option string :=
  match strip_prefix (base_url port) url with
  | Some EmptyString => Some "/"
  | Some (String c rest) =>
      if decide (c = "/"%char) then Some (path_part (String c rest))
      else if decide (c = "?"%char \/ c = "#"%char) then Some "/"
      else None
  | None => None
  end.

(** The test server for an application, listening on [port]: a GET for a
    URL of this server is routed by its path; nothing else is listening. *)
Definition serve (app : Application) (port : string) : network :=
  fun _ url =>
    match request_path port url with
    | Some p => Replied (resolve app {| method := "GET"; path := p |} false)
    | None => Unreachable ConnectionRefused
    end.

(** The characters of a path segment that stand for themselves and that
    the client sends as they are: letters, digits, hyphen, underscore. *)
Definition plain_char (c : ascii) : bool :=
  let n := N_of_ascii c in
  ((48 <=? n) && (n <=? 57) || (65 <=? n) && (n <=? 90)
   || (97 <=? n) && (n <=? 122) || (n =? 45) || (n =? 95))%N.

Fixpoint plain (s : string) : bool :=
  match s with
  | EmptyString => true
  | String c s1 => plain_char c && plain s1
  end.

(** [str(self.server.port)]: a port number in decimal. *)
Definition digit (c : ascii) : bool :=
  let n := N_of_ascii c in ((48 <=? n) && (n <=? 57))%N.

Fixpoint digits (s : string) : bool :=
  match s with
  | EmptyString => true
  | String c s1 => digit c && digits s1
  end.

Definition port_number (s : string) : bool :=
  match s with
  | EmptyString => false
  | String _ _ => digits s
  end.

(** How a test ends: it passes, an assertion (or [pytest.raises]) fails,
    or an exception escapes it. *)
Inductive verdict : Type :=
| Passed
| Failed
| Errored (e : exn).

Definition is_ClientResponseError (e : exn) : bool :=
  match e with ClientResponseError _ _ => true | _ => false end.

(** [with pytest.raises(expected): block], for the block's outcome. *)
Definition pytest_raises {A : Type} (expected : exn -> bool) (o : outcome A)
    : verdict :=
  match o with
  | Returned _ => Failed
  | Raised e => if expected e then Passed else Errored e
  end.

Definition test_fetch_data_success (net : network) (port : string) (w : world)
    : verdict :=
  let url := "http://localhost:" +:+ port +:+ "/test" in
  match (run net (fetch_data url) w).1 with
  | Returned response_text =>
      if decide (response_text = "Mock response data") then Passed else Failed
  | Raised e => Errored e
  end.

Definition test_fetch_data_404 (net : network) (port : string) (w : world)
    : verdict :=
  let url := "http://localhost:" +:+ port +:+ "/nonexistent" in
  pytest_raises is_ClientResponseError (run net (fetch_data url) w).1.

(** * Properties *)

Ltac unfold_world :=
  unfold log, open_session, count_request, open_response, drop_response,
    drop_session, print;
  cbn [next_handle sessions responses sent trace stdout fst snd].

(* Reduction of the coroutine and of the client's bookkeeping only: the set
   and map operations stay folded. *)
Ltac run_simpl :=
  cbn [run step perform mbind coro_bind bind finally async_with aenter aexit
       ClientSession_cm get_cm invoke fst snd
       log open_session count_request open_response drop_response
       drop_session print
       next_handle sessions responses sent trace stdout
       resp_id request_info status content reply_status reply_body].

Lemma world_eq (w1 w2 : world) :
  next_handle w1 = next_handle w2 ->
  sessions w1 = sessions w2 ->
  responses w1 = responses w2 ->
  sent w1 = sent w2 ->
  trace w1 = trace w2 ->
  stdout w1 = stdout w2 ->
  w1 = w2.
Proof. destruct w1, w2. cbn [next_handle sessions responses sent trace stdout]. congruence. Qed.

Ltac world_eq :=
  apply world_eq; run_simpl; cbn [app];
  [reflexivity | reflexivity | reflexivity | reflexivity
  | by rewrite <- ?app_assoc | reflexivity].

Lemma emitted_app (w w1 : world) (evs : list event) :
  trace w1 = trace w ++ evs -> emitted w w1 = evs.
Proof. intros Hw. unfold emitted. rewrite Hw. apply drop_app_length. Qed.

Lemma emitted_refl (w : world) : emitted w w = [].
Proof. unfold emitted. apply drop_all. Qed.

Lemma handles_nil : handles [] = ∅.
Proof. reflexivity. Qed.

Lemma handles_cons (ev : event) (l : list event) :
  handles (ev :: l) = event_handles ev ∪ handles l.
Proof. reflexivity. Qed.

Lemma handles_app (l1 l2 : list event) :
  handles (l1 ++ l2) = handles l1 ∪ handles l2.
Proof.
  unfold handles. rewrite fmap_app. apply union_list_app_L.
Qed.

Section Fetch.

Variable net : network.

Lemma run_fetch_data (url : string) (w : world) :
  run net (fetch_data url) w =
    (fetched url (net (sent w) url), fetch_effect net url w).
Proof.
  unfold fetch_data, fetched, fetch_effect, fetch_events, exchange_events.
  run_simpl.
  rewrite decide_True by set_solver. run_simpl.
  destruct (net (sent w) url) as [cause|rep]; run_simpl.
  - f_equal. world_eq.
  - destruct (decide (400 <= reply_status rep)); run_simpl.
    + f_equal. world_eq.
    + rewrite lookup_insert_eq.
      destruct (reply_body rep); run_simpl; f_equal; world_eq.
Qed.

Lemma emitted_fetch (url : string) (w : world) :
  emitted w (fetch_effect net url w) =
    fetch_events (next_handle w) url (net (sent w) url).
Proof. apply emitted_app. reflexivity. Qed.

(** C1. When the server answers the request with a status below 400 and a
    body, [fetch_data] returns that body unchanged; the test suite's case is
    status 200 with body "Mock response data". *)
Theorem fetch_data_returns_body (w : world) (url : string) (st : Z)
    (body : string) :
  st < 400 ->
  net (sent w) url = Replied {| reply_status := st; reply_body := Some body |} ->
  (run net (fetch_data url) w).1 = Returned body.
Proof.
  intros Hst Hnet. rewrite run_fetch_data, Hnet. cbn.
  by rewrite decide_False by lia.
Qed.

(** C2. When the server answers with a status of 400 or more, [fetch_data]
    raises the status error, which carries the requested URL and the status,
    and no string is returned. *)
Theorem fetch_data_raises_on_bad_status (w : world) (url : string) (rep : reply) :
  400 <= reply_status rep ->
  net (sent w) url = Replied rep ->
  (run net (fetch_data url) w).1
    = Raised (ClientResponseError url (reply_status rep))
  /\ forall t : string, (run net (fetch_data url) w).1 <> Returned t.
Proof.
  intros Hst Hnet. rewrite run_fetch_data, Hnet. cbn.
  rewrite decide_True by done. split; [done | discriminate].
Qed.

(** C3. When the request fails before a status is obtained, [fetch_data]
    raises the transport error of that failure; one request was issued and
    none after it, and the session was closed on the way out. *)
Theorem fetch_data_transport_error (w : world) (url : string)
    (cause : transport_failure) :
  net (sent w) url = Unreachable cause ->
  let r := run net (fetch_data url) w in
  r.1 = Raised (TransportError cause)
  /\ sent r.2 = S (sent w)
  /\ emitted w r.2 =
       [SessionOpened (next_handle w); RequestSent (next_handle w) url;
        SessionClosed (next_handle w)].
Proof.
  intros Hnet r. subst r. rewrite run_fetch_data. cbn [fst snd].
  rewrite emitted_fetch, Hnet. by cbn.
Qed.

(** C4. Whatever way the call ends, the session it opened has been closed
    when it ends: the call's events start with the opening of its session,
    end with its closing and open no other; afterwards that session is not
    open, and no session or connection is open that was not before. *)
Theorem fetch_data_releases_session (w : world) (url : string) :
  let w1 := (run net (fetch_data url) w).2 in
  let h := next_handle w in
  (exists mid : list event,
      emitted w w1 = SessionOpened h :: mid ++ [SessionClosed h]
      /\ forall s : handle, SessionOpened s ∉ mid)
  /\ (h ∉ sessions w1)
  /\ (sessions w1 ⊆ sessions w)
  /\ (responses w1 ⊆ responses w).
Proof.
  intros w1 h. subst w1 h. rewrite run_fetch_data. cbn [snd].
  rewrite emitted_fetch. split; [|split; [|split]].
  - exists (RequestSent (next_handle w) url
             :: exchange_events (next_handle w) (net (sent w) url)).
    split; [reflexivity|]. intros s Hs. unfold exchange_events in Hs.
    destruct (net (sent w) url) as [cause|rep];
      [|destruct (decide (400 <= reply_status rep))]; cbn [app] in Hs;
      repeat (apply elem_of_cons in Hs as [Hs|Hs]; [discriminate|]);
      by apply elem_of_nil in Hs.
  - cbn [fetch_effect sessions]. set_solver.
  - cbn [fetch_effect sessions]. set_solver.
  - cbn [fetch_effect responses]. etrans; [apply map_filter_subseteq|].
    destruct (net (sent w) url); [done|].
    rewrite delete_insert_eq. apply delete_subseteq.
Qed.

(** C5. The status is inspected before the body is read: in the events of a
    call, a body read comes after a status check of the same response that
    found a status below 400; when the status is 400 or more the call
    raises right after the check and the body is not read. *)
Theorem status_checked_before_body_read (w : world) (url : string) :
  let r := run net (fetch_data url) w in
  let evs := emitted w r.2 in
  (forall (i : nat) (resp : handle),
      evs !! i = Some (BodyRead resp) ->
      exists (j : nat) (st : Z),
        (j < i)%nat /\ evs !! j = Some (StatusChecked resp st) /\ st < 400)
  /\ (forall rep : reply,
        net (sent w) url = Replied rep ->
        400 <= reply_status rep ->
        r.1 = Raised (ClientResponseError url (reply_status rep))
        /\ evs = [SessionOpened (next_handle w);
                  RequestSent (next_handle w) url;
                  ResponseStarted (S (next_handle w));
                  StatusChecked (S (next_handle w)) (reply_status rep);
                  ResponseReleased (S (next_handle w));
                  SessionClosed (next_handle w)]
        /\ forall resp : handle, BodyRead resp ∉ evs).
Proof.
  intros r evs. subst evs r. rewrite run_fetch_data. cbn [fst snd].
  rewrite emitted_fetch. unfold fetch_events, exchange_events, fetched. split.
  - intros i resp Hi.
    destruct (net (sent w) url) as [cause|rep];
      [|destruct (decide (400 <= reply_status rep))]; cbn [app] in Hi |- *;
      do 7 (try (destruct i as [|i]; cbn in Hi; simplify_eq)).
    exists 3%nat, (reply_status rep). split; [lia|]. split; [reflexivity | lia].
  - intros rep -> Hst. rewrite !decide_True by done. cbn.
    repeat split. intros resp Hin.
    repeat (apply elem_of_cons in Hin as [Hin|Hin]; [discriminate|]).
    by apply elem_of_nil in Hin.
Qed.

(** C6. Two calls in a row for the same URL, both answered with the same
    successful reply, return the same body; each call issues a request of
    its own, on a session of its own. *)
Theorem repeated_fetch_same_body (w : world) (url : string) (rep : reply)
    (body : string) :
  reply_status rep < 400 ->
  reply_body rep = Some body ->
  net (sent w) url = Replied rep ->
  net (S (sent w)) url = Replied rep ->
  let r1 := run net (fetch_data url) w in
  let r2 := run net (fetch_data url) r1.2 in
  r1.1 = Returned body
  /\ r2.1 = Returned body
  /\ sent r2.2 = S (S (sent w))
  /\ List.filter is_request (emitted w r2.2) =
       [RequestSent (next_handle w) url;
        RequestSent (S (S (next_handle w))) url].
Proof.
  intros Hst Hbody Hn1 Hn2 r1 r2. subst r2 r1.
  rewrite !run_fetch_data. cbn [fst snd].
  assert (Hf : fetched url (Replied rep) = Returned body).
  { unfold fetched. rewrite decide_False by lia. by rewrite Hbody. }
  change (sent (fetch_effect net url w)) with (S (sent w)).
  rewrite Hn1, Hn2, Hf.
  split; [reflexivity|]. split; [reflexivity|]. split; [reflexivity|].
  rewrite (emitted_app w _
             (fetch_events (next_handle w) url (Replied rep)
              ++ fetch_events (S (S (next_handle w))) url (Replied rep))).
  - unfold fetch_events, exchange_events.
    rewrite !decide_False by lia. reflexivity.
  - cbn [fetch_effect trace sent next_handle]. rewrite Hn1, Hn2.
    by rewrite <- app_assoc.
Qed.

End Fetch.

Section Stages.
Variable net : network.






Lemma emitted_trans (w w1 w2 : world) (evs1 evs2 : list event) :
  trace w1 = trace w ++ evs1 -> trace w2 = trace w1 ++ evs2 ->
  emitted w w2 = emitted w w1 ++ emitted w1 w2.
Proof.
  intros H1 H2. rewrite (emitted_app w w1 evs1 H1), (emitted_app w1 w2 evs2 H2).
  apply emitted_app. by rewrite H2, H1, <- app_assoc.
Qed.

End Stages.

Section WireStages.
Variable net : network.

(** Running a task to its end is resuming it and running what it has
    become: the suspension points split the calls, they do not change what
    the calls do. *)
Lemma finish_advance {A : Type} (t : task A) (w : world) :
  finish net t w = let '(t1, w1) := advance net t w in finish net t1 w1.
Proof.
  destruct t as [p|s url k|s url k|s url n k|r k]; unfold finish;
    cbn [settle advance].
  - destruct p as [o|X c k]; [reflexivity|]. cbn [run].
    destruct c; cbn [enter_call perform settle].
    + reflexivity.
    + destruct (decide (session ∈ sessions w)) as [Hin|Hout];
        cbn [settle perform]; [|reflexivity].
      rewrite decide_True by exact Hin.
      destruct (net (sent w) url); reflexivity.
    + destruct (decide (400 <= status response)); reflexivity.
    + destruct (responses w !! resp_id response) as [owner|] eqn:Hresp;
        cbn [settle]; [|reflexivity].
      unfold receive_body. cbn [log responses]. rewrite Hresp.
      destruct (content response); reflexivity.
    + reflexivity.
    + reflexivity.
  - cbn [perform]. destruct (decide (s ∈ sessions w)) as [Hin|Hout];
      cbn [settle perform]; [|reflexivity].
    rewrite decide_True by exact Hin.
    destruct (net (sent w) url); reflexivity.
  - cbn [perform]. destruct (decide (s ∈ sessions w)); [|reflexivity].
    cbn [settle]. unfold receive_headers.
    cbn [log count_request sent sessions next_handle].
    destruct (net (sent w) url) as [cause|rep]; [reflexivity|].
    by rewrite decide_True.
  - destruct (receive_headers net s url n w). reflexivity.
  - destruct (receive_body r w). reflexivity.
Qed.

(** Resuming a task that stands at a stage of [fetch_data] takes it to the
    next stage. *)
Lemma advance_at_stage (url : string) (ws : wire_stage) (t : task string)
    (w : world) :
  at_stage url ws t ->
  at_stage url (wire_step net url ws w).1 (advance net t w).1
  /\ (advance net t w).2 = (wire_step net url ws w).2.
Proof.
  intros Hat. destruct Hat as [st|s k Hk|s k Hk|s n k Hk|s r k Hk].
  - destruct st as [|s|s r|s r|s r o|s o|o];
      unfold fetch_data;
      cbn [resume wire_step stage_step advance enter_call perform fst snd
           finally async_with mbind coro_bind bind aenter aexit get_cm
           ClientSession_cm invoke].
    + split; [exact (at_ready url (Opened (next_handle w))) | reflexivity].
    + destruct (decide (s ∈ sessions w)); cbn [fst snd].
      * split; [|reflexivity]. apply at_connecting. by intros [r|err].
      * split; [exact (at_ready url (Closing s (Raised SessionClosedError)))
               | reflexivity].
    + destruct (decide (400 <= status r)); cbn [fst snd].
      * split; [|reflexivity].
        exact (at_ready url
                 (Releasing s r
                    (Raised (ClientResponseError (request_info r) (status r))))).
      * split; [exact (at_ready url (Checked s r)) | reflexivity].
    + destruct (responses w !! resp_id r); cbn [fst snd].
      * split; [|reflexivity]. apply at_body. by intros o.
      * split; [|reflexivity].
        exact (at_ready url (Releasing s r (Raised ConnectionClosedError))).
    + split; [exact (at_ready url (Closing s o)) | reflexivity].
    + split; [exact (at_ready url (Finished o)) | reflexivity].
    + split; [exact (at_ready url (Finished o)) | reflexivity].
  - cbn [wire_step advance]. destruct (decide (s ∈ sessions w)); cbn [fst snd].
    + split; [by apply at_sending | reflexivity].
    + split; [|reflexivity]. rewrite Hk. apply at_ready.
  - cbn [wire_step advance]. destruct (decide (s ∈ sessions w)); cbn [fst snd].
    + split; [by apply at_headers | reflexivity].
    + split; [|reflexivity]. rewrite Hk. apply at_ready.
  - cbn [wire_step advance].
    destruct (receive_headers net s url n w) as [o w1]. cbn [fst snd].
    split; [|reflexivity]. rewrite Hk. apply at_ready.
  - cbn [wire_step advance].
    destruct (receive_body r w) as [o w1]. cbn [fst snd].
    split; [|reflexivity]. rewrite Hk. apply at_ready.
Qed.


Ltac wire_cases ws w :=
  destruct ws as [st|s|s|s n|s r];
  [destruct st as [|s|s r|s r|s r o|s o|o]| | | |];
  cbn [wire_step stage_step perform];
  [ | destruct (decide (s ∈ sessions w)) as [Hopen|Hclosed]
    | destruct (decide (400 <= status r))
    | destruct (responses w !! resp_id r) as [owner|] eqn:Hresp
    | | |
    | destruct (decide (s ∈ sessions w)) as [Hopen|Hclosed]
    | destruct (decide (s ∈ sessions w)) as [Hopen|Hclosed]
    | unfold receive_headers;
      destruct (net n _) as [cause|rep] eqn:Hnet_n;
      [|destruct (decide (s ∈ sessions w)) as [Hopen|Hclosed]]
    | unfold receive_body;
      destruct (responses w !! resp_id r) as [owner|] eqn:Hresp;
      [destruct (content r) as [body|] eqn:Hcontent|] ];
  cbn [fst snd after_get].

Lemma wire_step_trace (url : string) (ws : wire_stage) (w : world) :
  exists evs : list event,
    trace (wire_step net url ws w).2 = trace w ++ evs.
Proof.
  wire_cases ws w; unfold_world;
    try (eexists; rewrite <- ?app_assoc; reflexivity).
  all: by exists []; rewrite app_nil_r.
Qed.

Lemma wire_step_next_handle (url : string) (ws : wire_stage) (w : world) :
  (next_handle w <= next_handle (wire_step net url ws w).2)%nat.
Proof. wire_cases ws w; unfold_world; lia. Qed.

Lemma wire_rank_step (url : string) (ws : wire_stage) (w : world) :
  (wire_rank (wire_step net url ws w).1 <= pred (wire_rank ws))%nat.
Proof. wire_cases ws w; cbn [wire_rank pred]; lia. Qed.

Lemma wire_step_good (url : string) (x : exchange) (ws : wire_stage)
    (w : world) :
  (forall n : nat, net n url = x) ->
  wire_good url x ws w ->
  wire_good url x (wire_step net url ws w).1 (wire_step net url ws w).2.
Proof.
  intros Hnet Hgood.
  wire_cases ws w; cbn [wire_good good] in Hgood |- *; unfold_world.
  - set_solver.
  - exact Hopen.
  - contradiction.
  - destruct Hgood as (_ & rep & -> & Hurl & Hst & _). unfold fetched.
    rewrite Hst in *. rewrite Hurl. by rewrite decide_True by lia.
  - destruct Hgood as (Hr & rep & ?). split; [done|]. split; [lia|].
    by exists rep.
  - exact Hgood.
  - destruct Hgood as (Hr & _). congruence.
  - exact Hgood.
  - exact Hgood.
  - exact Hgood.
  - exact Hopen.
  - contradiction.
  - exact Hopen.
  - contradiction.
  - rewrite <- (Hnet n), Hnet_n. reflexivity.
  - rewrite lookup_insert_eq. split; [done|]. exists rep.
    by rewrite <- (Hnet n), Hnet_n.
  - contradiction.
  - destruct Hgood as (_ & Hlt & rep & -> & _ & Hst & Hbody). unfold fetched.
    rewrite Hst in Hlt. by rewrite decide_False, <- Hbody, Hcontent by lia.
  - destruct Hgood as (_ & Hlt & rep & -> & _ & Hst & Hbody). unfold fetched.
    rewrite Hst in Hlt. by rewrite decide_False, <- Hbody, Hcontent by lia.
  - destruct Hgood as (Hr & _). congruence.
Qed.

Ltac wire_emitted :=
  unfold emitted, log, open_session, count_request, open_response,
    drop_response, drop_session;
  cbn [trace next_handle sessions responses sent stdout];
  rewrite <- ?app_assoc, ?drop_app_length, ?drop_all.

(** The handles a resumption touches are handles the call held or fresh
    ones. *)
Lemma wire_step_handles (url : string) (ws : wire_stage) (w : world)
    (h : handle) :
  h ∈ wire_owned (wire_step net url ws w).1
      ∪ handles (emitted w (wire_step net url ws w).2) ->
  h ∈ wire_owned ws
  \/ (next_handle w <= h < next_handle (wire_step net url ws w).2)%nat.
Proof.
  wire_cases ws w; wire_emitted; cbn [app wire_owned owned];
    rewrite ?handles_cons, ?handles_nil; cbn [event_handles resp_id];
    set_unfold; naive_solver lia.
Qed.

Lemma wire_step_owned (url : string) (ws : wire_stage) (w : world) :
  wire_owned (wire_step net url ws w).1
    ⊆ wire_owned ws ∪ handles (emitted w (wire_step net url ws w).2).
Proof.
  wire_cases ws w; wire_emitted; cbn [app wire_owned owned];
    rewrite ?handles_cons, ?handles_nil; cbn [event_handles resp_id];
    set_solver.
Qed.

(** A resumption keeps open the sessions the call does not hold. *)
Lemma wire_step_sessions (url : string) (ws : wire_stage) (w : world)
    (s1 : handle) :
  s1 ∈ sessions w -> s1 ∉ wire_owned ws ->
  s1 ∈ sessions (wire_step net url ws w).2.
Proof.
  wire_cases ws w; unfold_world; cbn [wire_owned owned]; set_solver.
Qed.

(** A resumption keeps the responses the call does not hold, when their
    session is not the call's either. *)
Lemma wire_step_responses (url : string) (ws : wire_stage) (w : world)
    (r1 s1 : handle) :
  responses w !! r1 = Some s1 ->
  r1 ∉ wire_owned ws -> s1 ∉ wire_owned ws -> (r1 < next_handle w)%nat ->
  responses (wire_step net url ws w).2 !! r1 = Some s1.
Proof.
  wire_cases ws w; unfold_world; cbn [wire_owned owned];
    intros Hr1 Hr Hs Hlt; try assumption.
  - rewrite lookup_delete_ne by set_solver. assumption.
  - apply map_lookup_filter_Some. split; [assumption|]. cbn. set_solver.
  - rewrite lookup_insert_ne by lia. assumption.
Qed.

Lemma wire_step_frame (url : string) (ws : wire_stage) (w : world)
    (url1 : string) (x1 : exchange) (ws1 : wire_stage) :
  wire_good url1 x1 ws1 w ->
  wire_owned ws1 ## wire_owned ws ->
  (forall h : handle, h ∈ wire_owned ws1 -> (h < next_handle w)%nat) ->
  wire_good url1 x1 ws1 (wire_step net url ws w).2.
Proof.
  intros Hgood Hdisj Hlt.
  destruct ws1 as [st1|s1|s1|s1 n1|s1 r1];
    [destruct st1 as [|s1|s1 r1|s1 r1|s1 r1 o1|s1 o1|o1]| | | |];
    cbn [wire_good good wire_owned owned] in *; try assumption.
  - apply wire_step_sessions; [assumption | set_solver].
  - destruct Hgood as [Hr Hrest]. split; [|assumption].
    apply wire_step_responses; [assumption | set_solver | set_solver |].
    apply Hlt. set_solver.
  - destruct Hgood as [Hr Hrest]. split; [|assumption].
    apply wire_step_responses; [assumption | set_solver | set_solver |].
    apply Hlt. set_solver.
  - apply wire_step_sessions; [assumption | set_solver].
  - apply wire_step_sessions; [assumption | set_solver].
  - apply wire_step_sessions; [assumption | set_solver].
  - destruct Hgood as [Hr Hrest]. split; [|assumption].
    apply wire_step_responses; [assumption | set_solver | set_solver |].
    apply Hlt. set_solver.
Qed.


Lemma together_sym (u1 : string) (x1 : exchange) (u2 : string) (x2 : exchange)
    (ws1 ws2 : wire_stage) (la lb : list event) (w : world) :
  together u1 x1 u2 x2 ws1 ws2 la lb w ->
  together u2 x2 u1 x1 ws2 ws1 lb la w.
Proof.
  intros (H1 & H2 & H3 & H4 & H5 & H6). repeat split; try assumption.
  - by symmetry.
  - intros h Hh. apply H6. set_solver.
Qed.

(** A resumption of the left task keeps the two apart. *)
Lemma together_step (u1 : string) (x1 : exchange) (u2 : string) (x2 : exchange)
    (ws1 ws2 : wire_stage) (la lb : list event) (w : world) :
  (forall n : nat, net n u1 = x1) ->
  together u1 x1 u2 x2 ws1 ws2 la lb w ->
  together u1 x1 u2 x2 (wire_step net u1 ws1 w).1 ws2
    (la ++ emitted w (wire_step net u1 ws1 w).2) lb
    (wire_step net u1 ws1 w).2.
Proof.
  intros Hnet (H1 & H2 & H3 & H4 & H5 & H6).
  pose proof (wire_step_handles u1 ws1 w) as Hh.
  pose proof (wire_step_owned u1 ws1 w) as Ho.
  pose proof (wire_step_next_handle u1 ws1 w) as Hn.
  assert (Hfresh : forall h : handle,
             h ∈ handles (emitted w (wire_step net u1 ws1 w).2) ->
             h ∈ handles la
             \/ (next_handle w <= h < next_handle (wire_step net u1 ws1 w).2)%nat).
  { intros h Hin. destruct (Hh h) as [Hold|Hnew]; [set_solver| |by right].
    left. set_solver. }
  unfold together. rewrite handles_app. repeat split.
  - by apply wire_step_good.
  - apply wire_step_frame; [assumption | set_solver |].
    intros h Hin. apply H6. set_solver.
  - set_solver.
  - assumption.
  - intros h Hin Hin'. apply elem_of_union in Hin as [Hin|Hin]; [set_solver|].
    destruct (Hfresh h Hin) as [Hold|Hnew]; [set_solver|].
    assert (h < next_handle w)%nat by (apply H6; set_solver). lia.
  - intros h Hin.
    assert (Hcases : h ∈ handles la ∪ handles lb
               \/ h ∈ handles (emitted w (wire_step net u1 ws1 w).2))
      by set_solver.
    destruct Hcases as [Hold|Hnew].
    + specialize (H6 h Hold). lia.
    + destruct (Hfresh h Hnew) as [Hold|Hnew']; [|lia].
      assert (h < next_handle w)%nat by (apply H6; set_solver). lia.
Qed.

(** Running a task that stands at a stage to its end is resuming it until
    the last stage. *)
Lemma finish_at_stage (n : nat) (url : string) (ws : wire_stage)
    (t : task string) (w : world) :
  at_stage url ws t ->
  (wire_rank ws <= n)%nat ->
  exists o : outcome string,
    (wire_run n net url ws w).1 = At (Finished o)
    /\ finish net t w = (o, (wire_run n net url ws w).2).
Proof.
  revert ws t w. induction n as [|n IH]; intros ws t w Hat Hrank.
  - destruct Hat as [st|s k Hk|s k Hk|s m k Hk|s r k Hk];
      cbn [wire_rank] in Hrank; try lia.
    destruct st; cbn [wire_rank] in Hrank; try lia. by eexists.
  - rewrite finish_advance. cbn [wire_run].
    destruct (advance_at_stage url ws t w Hat) as [Hat1 Hw1].
    pose proof (wire_rank_step url ws w) as Hstep.
    destruct (advance net t w) as [t1 w1].
    destruct (wire_step net url ws w) as [ws1 w1']. cbn [fst snd] in *.
    subst w1'. apply IH; [assumption | lia].
Qed.

Lemma wire_run_trace (n : nat) (url : string) (ws : wire_stage) (w : world) :
  exists evs : list event,
    trace (wire_run n net url ws w).2 = trace w ++ evs.
Proof.
  revert ws w. induction n as [|n IH]; intros ws w; cbn [wire_run].
  - exists []. by rewrite app_nil_r.
  - destruct (wire_step_trace url ws w) as [evs1 H1].
    destruct (wire_step net url ws w) as [ws1 w1]. cbn [snd] in H1.
    destruct (IH ws1 w1) as [evs2 H2]. exists (evs1 ++ evs2).
    by rewrite H2, H1, <- app_assoc.
Qed.

(** Any number of resumptions of the left task keeps the two apart. *)
Lemma together_run (n : nat) (u1 : string) (x1 : exchange) (u2 : string)
    (x2 : exchange) (ws1 ws2 : wire_stage) (la lb : list event) (w : world) :
  (forall k : nat, net k u1 = x1) ->
  together u1 x1 u2 x2 ws1 ws2 la lb w ->
  together u1 x1 u2 x2 (wire_run n net u1 ws1 w).1 ws2
    (la ++ emitted w (wire_run n net u1 ws1 w).2) lb
    (wire_run n net u1 ws1 w).2.
Proof.
  intros Hnet. revert ws1 la w.
  induction n as [|n IH]; intros ws1 la w Htog; cbn [wire_run].
  - cbn [fst snd]. by rewrite emitted_refl, app_nil_r.
  - pose proof (together_step _ _ _ _ _ _ _ _ _ Hnet Htog) as Hstep.
    destruct (wire_step_trace u1 ws1 w) as [evs1 H1].
    destruct (wire_step net u1 ws1 w) as [ws w1]. cbn [fst snd] in Hstep, H1.
    specialize (IH _ _ _ Hstep).
    destruct (wire_run_trace n u1 ws w1) as [evs2 H2].
    by rewrite (emitted_trans w w1 _ evs1 evs2 H1 H2), app_assoc.
Qed.

(** However the event loop schedules two calls of [fetch_data], each ends
    with what the network's answer for its own URL amounts to, and the
    handles their events mention are apart. *)
Lemma interleave_wire_at_stage (sched : list bool) (u1 : string)
    (x1 : exchange) (u2 : string) (x2 : exchange) (ws1 ws2 : wire_stage)
    (t1 t2 : task string) (la lb : list event) (w : world) :
  (forall k : nat, net k u1 = x1) ->
  (forall k : nat, net k u2 = x2) ->
  at_stage u1 ws1 t1 -> at_stage u2 ws2 t2 ->
  together u1 x1 u2 x2 ws1 ws2 la lb w ->
  let j := interleave_wire net sched t1 t2 la lb w in
  left_outcome j = fetched u1 x1
  /\ right_outcome j = fetched u2 x2
  /\ handles (left_log j) ## handles (right_log j).
Proof.
  intros Hn1 Hn2. revert ws1 ws2 t1 t2 la lb w.
  induction sched as [|b sched IH]; intros ws1 ws2 t1 t2 la lb w Hat1 Hat2 Htog;
    cbn [interleave_wire].
  - destruct (finish_at_stage (wire_rank ws1) u1 ws1 t1 w Hat1)
      as (o1 & Hf1 & ->); [lia|].
    pose proof (together_run (wire_rank ws1) _ _ _ _ _ _ _ _ _ Hn1 Htog)
      as Htog1.
    rewrite Hf1 in Htog1.
    set (w1 := (wire_run (wire_rank ws1) net u1 ws1 w).2) in *.
    destruct (finish_at_stage (wire_rank ws2) u2 ws2 t2 w1 Hat2)
      as (o2 & Hf2 & ->); [lia|].
    pose proof (together_run (wire_rank ws2) _ _ _ _ _ _ _ _ _ Hn2
                  (together_sym _ _ _ _ _ _ _ _ _ Htog1)) as Htog2.
    rewrite Hf2 in Htog2.
    destruct Htog2 as (Hg2 & Hg1 & _ & _ & Hdisj & _).
    cbn [left_outcome right_outcome left_log right_log].
    cbn [wire_good good] in Hg1, Hg2. by repeat split.
  - destruct b.
    + destruct (advance_at_stage u1 ws1 t1 w Hat1) as [Hat Hw].
      pose proof (together_step _ _ _ _ _ _ _ _ _ Hn1 Htog) as Hstep.
      destruct (advance net t1 w) as [t w1]. cbn [fst snd] in Hat, Hw.
      rewrite <- Hw in Hstep. by apply (IH _ _ _ _ _ _ _ Hat Hat2).
    + destruct (advance_at_stage u2 ws2 t2 w Hat2) as [Hat Hw].
      pose proof (together_step _ _ _ _ _ _ _ _ _ Hn2
                    (together_sym _ _ _ _ _ _ _ _ _ Htog)) as Hstep.
      destruct (advance net t2 w) as [t w1]. cbn [fst snd] in Hat, Hw.
      rewrite <- Hw in Hstep.
      by apply (IH _ _ _ _ _ _ _ Hat1 Hat), together_sym.
Qed.

End WireStages.
Section Script.
Variable net : network.

(** C7. Two calls of [fetch_data] on one event loop do not interfere,
    however the loop switches between them at their suspension points
    (between calls, while a connection is acquired, while a request is
    written, while it is in flight, while a body arrives), when the network's answer for each URL
    does not depend on when the request arrives: each call ends with what
    the answer for its own URL amounts to, which is what it ends with when
    run alone, and no session or response handle is touched by both
    calls. *)
Theorem concurrent_fetches_do_not_interfere (sched : list bool) (w : world)
    (u1 u2 : string) (x1 x2 : exchange) :
  (forall k : nat, net k u1 = x1) ->
  (forall k : nat, net k u2 = x2) ->
  let j := gather_wire net sched (fetch_data u1) (fetch_data u2) w in
  left_outcome j = fetched u1 x1
  /\ right_outcome j = fetched u2 x2
  /\ left_outcome j = (run net (fetch_data u1) w).1
  /\ right_outcome j = (run net (fetch_data u2) w).1
  /\ handles (left_log j) ## handles (right_log j).
Proof.
  intros Hn1 Hn2 j.
  destruct (interleave_wire_at_stage net sched u1 x1 u2 x2
              (At Starting) (At Starting)
              (Ready (fetch_data u1)) (Ready (fetch_data u2)) [] [] w
              Hn1 Hn2 (at_ready u1 Starting) (at_ready u2 Starting))
    as (Hl & Hr & Hdisj).
  { unfold together. cbn [wire_good good wire_owned owned].
    rewrite handles_nil. repeat split; set_solver. }
  rewrite !run_fetch_data, Hn1, Hn2. cbn [fst]. by repeat split.
Qed.

(** C8. Run as a script, the module fetches the one URL it hardcodes and
    prints the text it got; the process exits with status 0 then, and with
    a non-zero status and the uncaught exception's traceback when the fetch
    raises, nothing being printed. *)
Theorem script_fetches_and_prints (w : world) :
  let p := run_script net w in
  let url := "https://example.com" in
  List.filter is_request (emitted w (after p))
    = [RequestSent (next_handle w) url]
  /\ match (run net (fetch_data url) w).1 with
     | Returned response_text =>
         exit_code p = 0 /\ traceback p = None
         /\ stdout (after p) = stdout w ++ [response_text]
     | Raised e =>
         exit_code p <> 0 /\ traceback p = Some e
         /\ stdout (after p) = stdout w
     end.
Proof.
  intros p url. subst p url.
  unfold run_script, module_body, python, main, asyncio_run.
  rewrite decide_True by reflexivity. rewrite run_fetch_data. cbn [fst].
  assert (Hreq : List.filter is_request
                   (emitted w (fetch_effect net "https://example.com" w))
                 = [RequestSent (next_handle w) "https://example.com"]).
  { rewrite emitted_fetch. unfold fetch_events, exchange_events.
    destruct (net (sent w) "https://example.com") as [cause|rep];
      [|destruct (decide (400 <= reply_status rep))]; reflexivity. }
  destruct (fetched "https://example.com" (net (sent w) "https://example.com"))
    as [response_text|e]; cbn [exit_code traceback after].
  - split; [exact Hreq|]. by repeat split.
  - split; [exact Hreq|]. by repeat split.
Qed.

(** C9. For a request that gets a reply, [fetch_data] raises the status
    error exactly when the status is 400 or more; below 400, whatever the
    class of the status, the check passes, the body is read and the call
    ends with the body text (or with the failure of reading it). *)
Theorem raises_iff_status_at_least_400 (w : world) (url : string) (rep : reply) :
  net (sent w) url = Replied rep ->
  let r := run net (fetch_data url) w in
  ((exists (u : string) (st : Z), r.1 = Raised (ClientResponseError u st))
   <-> 400 <= reply_status rep)
  /\ (reply_status rep < 400 ->
      BodyRead (S (next_handle w)) ∈ emitted w r.2
      /\ r.1 = match reply_body rep with
               | Some body => Returned body
               | None => Raised ClientPayloadError
               end).
Proof.
  intros Hnet r. subst r. rewrite run_fetch_data. cbn [fst snd].
  rewrite emitted_fetch, Hnet. unfold fetched, fetch_events, exchange_events.
  destruct (decide (400 <= reply_status rep)) as [Hge|Hlt].
  - split; [|lia]. split; [done|]. intros _. by eexists _, _.
  - split.
    + split; [|lia]. intros (u & st & Hr).
      destruct (reply_body rep); discriminate.
    + intros _. split; [|reflexivity]. cbn [app].
      rewrite !elem_of_cons. tauto.
Qed.

(** C10. Importing the module, that is running its top level under any
    name but "__main__", leaves the client and standard output as they
    were: no request, no event, nothing printed. *)
Theorem import_has_no_effect (name : string) (w : world) :
  name <> "__main__" ->
  module_body net name w = (Returned tt, w)
  /\ emitted w (module_body net name w).2 = []
  /\ sent (module_body net name w).2 = sent w
  /\ stdout (module_body net name w).2 = stdout w.
Proof.
  intros Hname. unfold module_body. rewrite decide_False by exact Hname.
  cbn [snd]. by rewrite emitted_refl.
Qed.

End Script.

(** * The theorems at the test suite's endpoints *)

Lemma fetch_data_returns_body_witness :
  200 < 400
  /\ mock_server "8080" (sent fresh) "http://localhost:8080/test"
       = Replied {| reply_status := 200;
                    reply_body := Some "Mock response data" |}
  /\ (run (mock_server "8080") (fetch_data "http://localhost:8080/test")
        fresh).1 = Returned "Mock response data".
Proof.
  split; [lia|]. split; [reflexivity|].
  apply (fetch_data_returns_body (mock_server "8080") fresh
           "http://localhost:8080/test" 200 "Mock response data");
    [lia | reflexivity].
Defined.

Lemma fetch_data_raises_on_bad_status_witness :
  (run (mock_server "8080") (fetch_data "http://localhost:8080/nonexistent")
     fresh).1
    = Raised (ClientResponseError "http://localhost:8080/nonexistent" 404)
  /\ forall t : string,
       (run (mock_server "8080")
          (fetch_data "http://localhost:8080/nonexistent") fresh).1
       <> Returned t.
Proof.
  apply (fetch_data_raises_on_bad_status (mock_server "8080") fresh
           "http://localhost:8080/nonexistent"
           {| reply_status := 404; reply_body := Some "404: Not Found" |});
    [cbn; lia | reflexivity].
Defined.

Lemma fetch_data_transport_error_witness :
  (run closed_port (fetch_data "http://localhost:1/test") fresh).1
    = Raised (TransportError ConnectionRefused)
  /\ sent (run closed_port (fetch_data "http://localhost:1/test") fresh).2
     = 1%nat
  /\ emitted fresh
       (run closed_port (fetch_data "http://localhost:1/test") fresh).2
     = [SessionOpened 0%nat; RequestSent 0%nat "http://localhost:1/test";
        SessionClosed 0%nat].
Proof.
  apply (fetch_data_transport_error closed_port fresh
           "http://localhost:1/test" ConnectionRefused).
  reflexivity.
Defined.

Lemma repeated_fetch_same_body_witness :
  let url := "http://localhost:8080/test" in
  let r1 := run (mock_server "8080") (fetch_data url) fresh in
  let r2 := run (mock_server "8080") (fetch_data url) r1.2 in
  r1.1 = Returned "Mock response data"
  /\ r2.1 = Returned "Mock response data"
  /\ sent r2.2 = 2%nat
  /\ List.filter is_request (emitted fresh r2.2)
     = [RequestSent 0%nat url; RequestSent 2%nat url].
Proof.
  apply (repeated_fetch_same_body (mock_server "8080") fresh
           "http://localhost:8080/test"
           {| reply_status := 200; reply_body := Some "Mock response data" |}
           "Mock response data");
    [cbn; lia | reflexivity | reflexivity | reflexivity].
Defined.

Lemma concurrent_fetches_do_not_interfere_witness :
  let u1 := "http://localhost:8080/test" in
  let u2 := "http://localhost:8080/nonexistent" in
  let j := gather_wire (mock_server "8080")
             [true; true; false; false; true; false; true; false; true; false]
             (fetch_data u1) (fetch_data u2) fresh in
  left_outcome j = Returned "Mock response data"
  /\ right_outcome j = Raised (ClientResponseError u2 404)
  /\ left_outcome j = (run (mock_server "8080") (fetch_data u1) fresh).1
  /\ right_outcome j = (run (mock_server "8080") (fetch_data u2) fresh).1
  /\ handles (left_log j) ## handles (right_log j).
Proof.
  apply (concurrent_fetches_do_not_interfere (mock_server "8080")
           [true; true; false; false; true; false; true; false; true; false] fresh
           "http://localhost:8080/test" "http://localhost:8080/nonexistent"
           (Replied {| reply_status := 200;
                       reply_body := Some "Mock response data" |})
           (Replied {| reply_status := 404;
                       reply_body := Some "404: Not Found" |}));
    intros k; reflexivity.
Defined.

(** Under that schedule both requests are in flight at once: each call has
    sent its request before either has its response. *)
Example both_requests_in_flight :
  take 6 (trace (final (gather_wire (mock_server "8080")
                          [true; true; false; false; true; false; true; false; true; false]
                          (fetch_data "http://localhost:8080/test")
                          (fetch_data "http://localhost:8080/nonexistent")
                          fresh)))
  = [SessionOpened 0%nat; SessionOpened 1%nat;
     RequestSent 0%nat "http://localhost:8080/test";
     RequestSent 1%nat "http://localhost:8080/nonexistent";
     ResponseStarted 2%nat; ResponseStarted 3%nat].
Proof. vm_compute. reflexivity. Qed.

Lemma raises_iff_status_at_least_400_witness :
  let r := run (mock_server "8080")
             (fetch_data "http://localhost:8080/nonexistent") fresh in
  ((exists (u : string) (st : Z), r.1 = Raised (ClientResponseError u st))
   <-> 400 <= 404)
  /\ (404 < 400 ->
      BodyRead 1%nat ∈ emitted fresh r.2
      /\ r.1 = Returned "404: Not Found").
Proof.
  apply (raises_iff_status_at_least_400 (mock_server "8080") fresh
           "http://localhost:8080/nonexistent"
           {| reply_status := 404; reply_body := Some "404: Not Found" |}).
  reflexivity.
Defined.

Lemma import_has_no_effect_witness :
  module_body closed_port "async_request" fresh = (Returned tt, fresh)
  /\ emitted fresh (module_body closed_port "async_request" fresh).2 = []
  /\ sent (module_body closed_port "async_request" fresh).2 = 0%nat
  /\ stdout (module_body closed_port "async_request" fresh).2 = [].
Proof.
  apply (import_has_no_effect closed_port "async_request" fresh).
  discriminate.
Defined.

(** * Further properties of [fetch_data] *)

Section FetchMore.
Variable net : network.

(** X2. A call never asks a closed session for a request and never reads a
    released response: whatever the client's state and the network's answer,
    it does not end with the error of either misuse. *)
Theorem fetch_data_never_uses_closed (w : world) (url : string) :
  (run net (fetch_data url) w).1 <> Raised SessionClosedError
  /\ (run net (fetch_data url) w).1 <> Raised ConnectionClosedError.
Proof.
  rewrite run_fetch_data. cbn [fst]. unfold fetched.
  destruct (net (sent w) url) as [cause|rep]; [split; discriminate|].
  destruct (decide (400 <= reply_status rep)); [split; discriminate|].
  destruct (reply_body rep); split; discriminate.
Qed.

(** X3. When the request gets a reply, whatever its status, the response is
    released and only then the session closed: these are the call's last two
    events, the response was started before them, and it is not live
    afterwards. *)
Theorem response_released_before_session_closed (w : world) (url : string)
    (rep : reply) :
  net (sent w) url = Replied rep ->
  let w1 := (run net (fetch_data url) w).2 in
  let h := next_handle w in
  (exists pre : list event,
      emitted w w1 = pre ++ [ResponseReleased (S h); SessionClosed h]
      /\ ResponseStarted (S h) ∈ pre)
  /\ responses w1 !! S h = None.
Proof.
  intros Hnet w1 h. subst w1 h. rewrite run_fetch_data. cbn [snd].
  rewrite emitted_fetch. split.
  - rewrite Hnet. unfold fetch_events, exchange_events.
    destruct (decide (400 <= reply_status rep)).
    + exists [SessionOpened (next_handle w); RequestSent (next_handle w) url;
              ResponseStarted (S (next_handle w));
              StatusChecked (S (next_handle w)) (reply_status rep)].
      split; [reflexivity|]. rewrite !elem_of_cons. tauto.
    + exists [SessionOpened (next_handle w); RequestSent (next_handle w) url;
              ResponseStarted (S (next_handle w));
              StatusChecked (S (next_handle w)) (reply_status rep);
              BodyRead (S (next_handle w))].
      split; [reflexivity|]. rewrite !elem_of_cons. tauto.
  - cbn [fetch_effect responses]. rewrite Hnet.
    apply map_lookup_filter_None. left. apply lookup_delete_eq.
Qed.

(** X6. The outcome of a call does not depend on the client's state, which
    sessions and responses are open, what was logged or printed, only on
    which request of the network's it issues. *)
Theorem fetch_data_outcome_ignores_client_state (w w1 : world) (url : string) :
  sent w = sent w1 ->
  (run net (fetch_data url) w).1 = (run net (fetch_data url) w1).1.
Proof. intros Hsent. rewrite !run_fetch_data. cbn [fst]. by rewrite Hsent. Qed.

End FetchMore.

Section WellFormed.
Variable net : network.

Lemma well_formed_fresh_session (w : world) :
  well_formed w -> next_handle w ∉ sessions w.
Proof. intros [Hs _] Hin. specialize (Hs _ Hin). cbn in Hs. lia. Qed.

Lemma well_formed_no_response (w : world) (r : handle) :
  well_formed w -> (next_handle w <= r)%nat -> responses w !! r = None.
Proof.
  intros [_ Hr] Hle. destruct (responses w !! r) as [s|] eqn:Hlook; [|done].
  destruct (Hr _ _ Hlook). lia.
Qed.

Lemma fetch_effect_restores (url : string) (w : world) :
  well_formed w ->
  sessions (fetch_effect net url w) = sessions w
  /\ responses (fetch_effect net url w) = responses w.
Proof.
  intros Hwf. pose proof (well_formed_fresh_session w Hwf) as Hfresh.
  cbn [fetch_effect sessions responses]. split; [set_solver|].
  assert (Hkeep : filter (fun p : handle * handle => p.2 ≠ next_handle w)
                    (responses w) = responses w).
  { apply map_filter_id. intros r s Hlook. destruct Hwf as [_ Hr].
    destruct (Hr _ _ Hlook) as [_ Hlt]. cbn [snd]. lia. }
  destruct (net (sent w) url); [exact Hkeep|].
  rewrite delete_insert_eq, delete_id; [exact Hkeep|].
  apply well_formed_no_response; [assumption | lia].
Qed.

(** X4. On a client state whose handles are accounted for, a call leaves the
    open sessions, the live responses and standard output exactly as it
    found them, whatever its outcome. *)
Theorem fetch_data_restores_client (w : world) (url : string) :
  well_formed w ->
  let w1 := (run net (fetch_data url) w).2 in
  sessions w1 = sessions w
  /\ responses w1 = responses w
  /\ stdout w1 = stdout w.
Proof.
  intros Hwf w1. subst w1. rewrite run_fetch_data. cbn [snd].
  destruct (fetch_effect_restores url w Hwf) as [Hs Hr].
  split; [exact Hs|]. split; [exact Hr | reflexivity].
Qed.

End WellFormed.

(** * Nothing stays open under interleaving *)

Section Leaks.
Variable net : network.







End Leaks.

(** * The test suite *)

Lemma strip_prefix_append (p s : string) : strip_prefix p (p +:+ s) = Some s.
Proof.
  induction p as [|a p IH]; [reflexivity|].
  change (String a p +:+ s) with (String a (p +:+ s)).
  cbn [strip_prefix]. by rewrite decide_True.
Qed.

Lemma append_inv (p s1 s2 : string) : p +:+ s1 = p +:+ s2 -> s1 = s2.
Proof.
  induction p as [|a p IH]; [done|].
  change (String a p +:+ s1) with (String a (p +:+ s1)).
  change (String a p +:+ s2) with (String a (p +:+ s2)).
  intros Heq. injection Heq as Heq. by apply IH.
Qed.

Lemma plain_char_not_separator (c : ascii) :
  plain_char c = true -> ~ (c = "?"%char \/ c = "#"%char).
Proof. intros Hc [-> | ->]; discriminate. Qed.

Lemma path_part_plain (s : string) : plain s = true -> path_part s = s.
Proof.
  induction s as [|c s IH]; [reflexivity|]. cbn [plain path_part].
  intros [Hc Hs]%andb_prop.
  rewrite decide_False by (by apply plain_char_not_separator).
  by rewrite IH.
Qed.

(** The test server routes a URL made of its base and a plain path segment
    by that path. *)
Lemma serve_path (app : Application) (port rest : string) (k : nat) :
  plain rest = true ->
  serve app port k (base_url port +:+ String "/"%char rest)
    = Replied (resolve app
                 {| method := "GET"; path := String "/"%char rest |} false).
Proof.
  intros Hplain. unfold serve, request_path. rewrite strip_prefix_append.
  rewrite decide_True by reflexivity. cbn [path_part].
  rewrite decide_False by (intros [H|H]; discriminate).
  by rewrite path_part_plain.
Qed.

(** X9. On every URL made of the test server's base, for a port number, and
    one plain path segment (letters, digits, hyphen, underscore), the
    application that [get_application] builds answers as the mock endpoint
    does: 200 with "Mock response data" for /test, the server's 404 for any
    other. *)
Theorem get_application_is_mock_server (port rest : string) (k : nat) :
  port_number port = true ->
  plain rest = true ->
  serve get_application port k (base_url port +:+ String "/"%char rest)
    = mock_server port k (base_url port +:+ String "/"%char rest).
Proof.
  intros _ Hplain. rewrite serve_path by exact Hplain.
  unfold mock_server, get_application, add_get.
  cbn [app resolve path method].
  destruct (decide ("/test" = String "/"%char rest)) as [Heq|Hne].
  - rewrite decide_False by discriminate.
    rewrite decide_True by reflexivity.
    rewrite decide_True; [reflexivity|].
    rewrite <- Heq. reflexivity.
  - rewrite decide_False; [reflexivity|].
    intros Heq. apply Hne. symmetry.
    apply (append_inv (base_url port)). rewrite Heq. reflexivity.
Qed.

(** X10. [test_fetch_data_success] passes against the application the suite
    serves, on whatever port and from whatever client state. *)
Theorem test_fetch_data_success_passes (port : string) (w : world) :
  test_fetch_data_success (serve get_application port) port w = Passed.
Proof.
  unfold test_fetch_data_success. rewrite run_fetch_data. cbn [fst].
  change ("http://localhost:" +:+ port +:+ "/test")
    with (base_url port +:+ String "/"%char "test").
  rewrite serve_path by reflexivity. reflexivity.
Qed.

(** X11. [test_fetch_data_404] passes against the application the suite
    serves, on whatever port and from whatever client state. *)
Theorem test_fetch_data_404_passes (port : string) (w : world) :
  test_fetch_data_404 (serve get_application port) port w = Passed.
Proof.
  unfold test_fetch_data_404. rewrite run_fetch_data. cbn [fst].
  change ("http://localhost:" +:+ port +:+ "/nonexistent")
    with (base_url port +:+ String "/"%char "nonexistent").
  rewrite serve_path by reflexivity. reflexivity.
Qed.

(** X12. What [test_fetch_data_success] makes of a server's reply to the
    /test request: with any 2xx status, not only 200, it passes when the
    body is "Mock response data" and fails when the body is another text;
    with a status of 400 or more the status error escapes the test. *)
Theorem test_fetch_data_success_verdict (net : network) (port : string)
    (w : world) (rep : reply) :
  net (sent w) ("http://localhost:" +:+ port +:+ "/test") = Replied rep ->
  (200 <= reply_status rep < 300 ->
   reply_body rep = Some "Mock response data" ->
   test_fetch_data_success net port w = Passed)
  /\ (200 <= reply_status rep < 300 ->
      forall body : string,
        reply_body rep = Some body -> body <> "Mock response data" ->
        test_fetch_data_success net port w = Failed)
  /\ (400 <= reply_status rep ->
      test_fetch_data_success net port w
        = Errored (ClientResponseError
                     ("http://localhost:" +:+ port +:+ "/test")
                     (reply_status rep))).
Proof.
  intros Hnet. unfold test_fetch_data_success. rewrite run_fetch_data.
  cbn [fst]. rewrite Hnet. unfold fetched. repeat split.
  - intros Hst Hbody. rewrite decide_False by lia. rewrite Hbody.
    by rewrite decide_True.
  - intros Hst body Hbody Hne. rewrite decide_False by lia. rewrite Hbody.
    by rewrite decide_False.
  - intros Hst. by rewrite decide_True.
Qed.

(** X13. What [test_fetch_data_404] makes of what happens to the
    /nonexistent request: a reply with a status of 400 or more, whichever,
    makes it pass; a 2xx reply with a body makes it fail, nothing having
    been raised; a transport failure escapes it as an error. *)
Theorem test_fetch_data_404_verdict (net : network) (port : string)
    (w : world) :
  let url := "http://localhost:" +:+ port +:+ "/nonexistent" in
  (forall rep : reply,
      net (sent w) url = Replied rep -> 400 <= reply_status rep ->
      test_fetch_data_404 net port w = Passed)
  /\ (forall (rep : reply) (body : string),
        net (sent w) url = Replied rep ->
        200 <= reply_status rep < 300 -> reply_body rep = Some body ->
        test_fetch_data_404 net port w = Failed)
  /\ (forall cause : transport_failure,
        net (sent w) url = Unreachable cause ->
        test_fetch_data_404 net port w = Errored (TransportError cause)).
Proof.
  intros url. subst url. unfold test_fetch_data_404.
  rewrite run_fetch_data. cbn [fst]. unfold fetched, pytest_raises.
  repeat split.
  - intros rep -> Hst. by rewrite decide_True.
  - intros rep body -> Hst Hbody. rewrite decide_False by lia.
    by rewrite Hbody.
  - by intros cause ->.
Qed.

(** X14. A fetch, from the suite's server on a port number, of a plain
    path segment other than "test", a path the application has no route
    for, raises the status error with status 404 for that URL. *)
Theorem unrouted_path_raises_404 (port rest : string) (w : world) :
  port_number port = true ->
  plain rest = true ->
  rest <> "test" ->
  let url := base_url port +:+ String "/"%char rest in
  (run (serve get_application port) (fetch_data url) w).1
    = Raised (ClientResponseError url 404).
Proof.
  intros _ Hplain Hne url. subst url. rewrite run_fetch_data. cbn [fst].
  rewrite serve_path by exact Hplain. unfold get_application, add_get.
  cbn [app resolve path method].
  rewrite !decide_False by congruence. reflexivity.
Qed.

(** * Witnesses of the further properties *)

Lemma response_released_before_session_closed_witness :
  let w1 := (run (mock_server "8080")
               (fetch_data "http://localhost:8080/nonexistent") fresh).2 in
  (exists pre : list event,
      emitted fresh w1 = pre ++ [ResponseReleased 1%nat; SessionClosed 0%nat]
      /\ ResponseStarted 1%nat ∈ pre)
  /\ responses w1 !! 1%nat = None.
Proof.
  apply (response_released_before_session_closed (mock_server "8080") fresh
           "http://localhost:8080/nonexistent"
           {| reply_status := 404; reply_body := Some "404: Not Found" |}).
  reflexivity.
Defined.

Lemma fetch_data_outcome_ignores_client_state_witness :
  (run (mock_server "8080") (fetch_data "http://localhost:8080/test") fresh).1
  = (run (mock_server "8080") (fetch_data "http://localhost:8080/test")
       (open_session fresh)).1.
Proof.
  apply (fetch_data_outcome_ignores_client_state (mock_server "8080") fresh
           (open_session fresh) "http://localhost:8080/test").
  reflexivity.
Defined.

Lemma fetch_data_restores_client_witness :
  let w1 := (run (mock_server "8080")
               (fetch_data "http://localhost:8080/test") fresh).2 in
  sessions w1 = sessions fresh
  /\ responses w1 = responses fresh
  /\ stdout w1 = stdout fresh.
Proof.
  apply (fetch_data_restores_client (mock_server "8080") fresh
           "http://localhost:8080/test").
  split; [apply set_Forall_empty | apply map_Forall_empty].
Defined.

Lemma get_application_is_mock_server_witness :
  serve get_application "8080" 0%nat "http://localhost:8080/nonexistent"
  = mock_server "8080" 0%nat "http://localhost:8080/nonexistent".
Proof.
  apply (get_application_is_mock_server "8080" "nonexistent" 0%nat);
    reflexivity.
Defined.

Lemma test_fetch_data_success_verdict_witness :
  test_fetch_data_success
    (fun _ _ => Replied {| reply_status := 204;
                           reply_body := Some "Mock response data" |})
    "8080" fresh = Passed.
Proof.
  apply (proj1 (test_fetch_data_success_verdict
                  (fun _ _ => Replied {| reply_status := 204;
                                         reply_body := Some "Mock response data" |})
                  "8080" fresh
                  {| reply_status := 204;
                     reply_body := Some "Mock response data" |}
                  eq_refl));
    [cbn; lia | reflexivity].
Defined.

Lemma unrouted_path_raises_404_witness :
  (run (serve get_application "8080")
     (fetch_data "http://localhost:8080/nonexistent") fresh).1
  = Raised (ClientResponseError "http://localhost:8080/nonexistent" 404).
Proof.
  apply (unrouted_path_raises_404 "8080" "nonexistent" fresh);
    [reflexivity | reflexivity | discriminate].
Defined.
